(** * Process lifecycle controller of the file-management API ([src/bin/www.ts])

    A shallow embedding of the start-up script: the port resolver
    [normalizePort], the listener error handler [onError], the top-level
    exception handler, the asynchronous start-up routine and the two
    shutdown handlers it installs, run on a model of the Node.js event
    loop (one environment stimulus per turn, handlers run to their next
    suspension point). *)

From Stdlib Require Import List ZArith NArith Bool String Ascii Lia Arith.
Import ListNotations.

(* ================================================================== *)
(** ** JavaScript strings and [parseInt]                               *)
(* ================================================================== *)

(** A JavaScript string is a sequence of UTF-16 code units. *)
Definition code_unit := N.
Definition jsstring := list code_unit.

(** Literals: an ASCII string read as code units. *)
Definition of_string (s : string) : jsstring :=
  map N_of_ascii (list_ascii_of_string s).

(** The Number values [parseInt] can return.  [Num z] stands for the Number
    value of the mathematical integer [z]: [z] itself up to 2^53, beyond
    that the double nearest to it (an infinity past the largest double);
    [NegZero] is the negative zero, [NaN] the not-a-number.  Neither
    [isNaN] nor the comparison with 0 depends on the rounding, which is
    why it is left symbolic. *)
Inductive JSNumber : Type :=
| NaN
| NegZero
| Num (z : Z).

Definition isNaN (n : JSNumber) : bool :=
  match n with NaN => true | _ => false end.

(** [n >= 0] on Numbers: false on [NaN], true on both zeros. *)
Definition geq0 (n : JSNumber) : bool :=
  match n with
  | NaN => false
  | NegZero => true
  | Num z => (0 <=? z)%Z
  end.

(** StrWhiteSpaceChar of ECMAScript: WhiteSpace and LineTerminator. *)
Definition isStrWhiteSpaceChar (c : code_unit) : bool :=
  (existsb (N.eqb c)
     [9; 10; 11; 12; 13; 32; 160; 5760; 8232; 8233; 8239; 8287; 12288; 65279]
   || ((8192 <=? c) && (c <=? 8202)))%N.

Fixpoint trimStart (s : jsstring) : jsstring :=
  match s with
  | c :: r => if isStrWhiteSpaceChar c then trimStart r else s
  | [] => []
  end.

(** A radix-10 digit and its value. *)
Definition isDigit (c : code_unit) : bool := ((48 <=? c) && (c <=? 57))%N.
Definition digitValue (c : code_unit) : N := (c - 48)%N.

(** The longest prefix of radix-10 digits. *)
Fixpoint leadingDigits (s : jsstring) : jsstring :=
  match s with
  | c :: r => if isDigit c then c :: leadingDigits r else []
  | [] => []
  end.

(** The integer a digit sequence denotes, read left to right. *)
Definition mathInt (ds : jsstring) : N :=
  fold_left (fun acc c => (10 * acc + digitValue c)%N) ds 0%N.

Definition minus_sign : code_unit := 45%N.
Definition plus_sign : code_unit := 43%N.

(** The sign read off the trimmed input, and the input without it. *)
Definition signOf (s : jsstring) : bool :=
  match s with
  | c :: _ => N.eqb c minus_sign
  | [] => false
  end.

Definition dropSign (s : jsstring) : jsstring :=
  match s with
  | c :: r => if (N.eqb c plus_sign || N.eqb c minus_sign)%bool then r else s
  | [] => []
  end.

(** The Number of a sign and a magnitude. *)
Definition toNumber (neg : bool) (mag : N) : JSNumber :=
  if N.eqb mag 0 then (if neg then NegZero else Num 0)
  else Num (if neg then - Z.of_N mag else Z.of_N mag)%Z.

(** [parseInt(val, 10)]: leading white space is skipped, an optional sign
    is read, then the longest run of digits; no digit gives [NaN].  With
    radix 10 no [0x] prefix is stripped. *)
Definition parseInt10 (val : jsstring) : JSNumber :=
  let S := trimStart val in
  let neg := signOf S in
  let S' := dropSign S in
  let Z := leadingDigits S' in
  match Z with
  | [] => NaN
  | _ => toNumber neg (mathInt Z)
  end.

(* ================================================================== *)
(** ** Port setup                                                      *)
(* ================================================================== *)

(** What [normalizePort] returns: the value itself (a string), a number, or
    [false].  The specification calls them NamedPipe, NumericPort and
    Invalid. *)
Inductive PortValue : Type :=
| PString (s : jsstring)
| PNumber (n : JSNumber)
| PFalse.

Definition normalizePort (val : jsstring) : PortValue :=
  let port := parseInt10 val in
  (* named pipe *)
  if isNaN port then PString val
  (* port number *)
  else if geq0 port then PNumber port
  else PFalse.

(** [process.env.PORT || '5051']: an unset or empty variable gives the
    default. *)
Definition portSetting (env_PORT : option jsstring) : jsstring :=
  match env_PORT with
  | Some (c :: r) => c :: r
  | _ => of_string "5051"
  end.

Definition port (env_PORT : option jsstring) : PortValue :=
  normalizePort (portSetting env_PORT).

(* ================================================================== *)
(** ** Values the handlers see                                         *)
(* ================================================================== *)

(** An error object, reduced to the two properties the script reads with
    [===].  [None] is a property that is absent or not a string.  The
    handlers are typed to receive [Error] objects, so property reads on
    them do not fail. *)
Record JSError : Type := mkError {
  syscall : option string;
  code : option string
}.

Definition strictEq (v : option string) (lit : string) : bool :=
  match v with
  | Some s => String.eqb s lit
  | None => false
  end.

(** The two asynchronous calls on the database client, and how the promise
    of one settles. *)
Inductive DbOp : Type := Connect | Disconnect.

Inductive Settled : Type :=
| Resolved
| Rejected (e : JSError).

Inductive Level : Type := Warn | Info | Error_.

(** ['Pipe ' + port] or ['Port ' + port]. *)
Inductive Bind : Type :=
| Pipe (s : jsstring)
| Port (p : PortValue).

Definition bindOf (p : PortValue) : Bind :=
  match p with
  | PString s => Pipe s
  | _ => Port p
  end.

(** The log lines of the script, by call site. *)
Inductive Message : Type :=
| MsgRequiresPrivileges (b : Bind)
| MsgAlreadyInUse (b : Bind)
| MsgListeningOn (p : PortValue)
| MsgUncaughtShuttingDown
| MsgUncaughtErr (e : JSError)
| MsgUncaughtStack (e : JSError)
| MsgTryingToConnect
| MsgConnectionEstablished
| MsgErrorWhileConnecting (e : JSError)
| MsgTryingToDisconnect
| MsgConnectionClosed
| MsgErrorWhileDisconnecting (e : JSError)
| MsgUnhandledShuttingDown
| MsgUnhandledErr (e : JSError)
| MsgUnhandledStack (e : JSError)
| MsgSigintReceived
| MsgProcessTerminated.

(** The event names a listener is attached to. *)
Inductive Handler : Type :=
| HUncaughtException
| HAppError
| HUnhandledRejection
| HSigint
| HServerError
| HServerListening.

Definition Handler_eqb (a b : Handler) : bool :=
  match a, b with
  | HUncaughtException, HUncaughtException
  | HAppError, HAppError
  | HUnhandledRejection, HUnhandledRejection
  | HSigint, HSigint
  | HServerError, HServerError
  | HServerListening, HServerListening => true
  | _, _ => false
  end.

Inductive Library : Type := LibApp | LibPrisma | LibInitialize.

(** Synchronous calls that return normally. *)
Inductive Effect : Type :=
| Log (l : Level) (m : Message)
| ConsoleError (e : JSError)
| DebugListening (p : PortValue)
| On (h : Handler)
| Require (m : Library)
| AppSetPort (p : PortValue)
| CreateServer
| Listen (p : PortValue).

(* ================================================================== *)
(** ** Handler bodies as programs                                      *)
(* ================================================================== *)

(** The body of a function of the script, up to its possible outcomes:
    it returns, performs an effect and goes on, suspends on a database
    promise and goes on with how it settled, calls [server.close(cb)] and
    goes on, throws, or calls [process.exit]. *)
Inductive Prog : Type :=
| Return
| Do (e : Effect) (k : Prog)
| Await (op : DbOp) (k : Settled -> Prog)
| ServerClose (cb : Prog) (k : Prog)
| Throw (e : JSError)
| ProcessExit (c : Z).

(** Statement sequencing. *)
Fixpoint seq (p q : Prog) : Prog :=
  match p with
  | Return => q
  | Do e k => Do e (seq k q)
  | Await op k => Await op (fun r => seq (k r) q)
  | ServerClose cb k => ServerClose cb (seq k q)
  | Throw e => Throw e
  | ProcessExit c => ProcessExit c
  end.

Declare Scope prog_scope.
Delimit Scope prog_scope with prog.
Bind Scope prog_scope with Prog.
Notation "p ;; q" := (seq p q) (at level 61, right associativity) : prog_scope.
Local Open Scope prog_scope.

(** [try { body } catch (error) { handler }]. *)
Fixpoint tryCatch (body : Prog) (handler : JSError -> Prog) : Prog :=
  match body with
  | Return => Return
  | Do e k => Do e (tryCatch k handler)
  | Await op k => Await op (fun r => tryCatch (k r) handler)
  | ServerClose cb k => ServerClose cb (tryCatch k handler)
  | Throw e => handler e
  | ProcessExit c => ProcessExit c
  end.

(** Single statements. *)
Definition do (e : Effect) : Prog := Do e Return.
Definition logger (l : Level) (m : Message) : Prog := do (Log l m).

(** [await p]: a rejection is thrown at the await. *)
Definition await (op : DbOp) : Prog :=
  Await op (fun r => match r with
                     | Resolved => Return
                     | Rejected e => Throw e
                     end).

(** [server.close(() => process.exit(c))]. *)
Definition server_close (cb : Prog) : Prog := ServerClose cb Return.

(* ------------------------------------------------------------------ *)
(** *** The functions of the script                                    *)

Section Script.

(** The module constant [port]. *)
Variable port : PortValue.

(** Event listener for the HTTP server 'error' event. *)
Definition onError (error : JSError) : Prog :=
  if negb (strictEq (syscall error) "listen") then Throw error
  else
    let bind := bindOf port in
    if strictEq (code error) "EACCES" then
      logger Error_ (MsgRequiresPrivileges bind) ;; ProcessExit 1
    else if strictEq (code error) "EADDRINUSE" then
      logger Error_ (MsgAlreadyInUse bind) ;; ProcessExit 1
    else Throw error.

(** Event listener for the HTTP server 'listening' event. *)
Definition onListening : Prog :=
  logger Info (MsgListeningOn port) ;;
  do (DebugListening port).

(** The 'uncaughtException' listener. *)
Definition onUncaughtException (uncaughtExc : JSError) : Prog :=
  logger Error_ MsgUncaughtShuttingDown ;;
  logger Error_ (MsgUncaughtErr uncaughtExc) ;;
  logger Error_ (MsgUncaughtStack uncaughtExc) ;;
  do (ConsoleError uncaughtExc) ;;
  ProcessExit 1.

Definition closeAllExternalServices : Prog :=
  tryCatch
    (logger Warn MsgTryingToDisconnect ;;
     await Disconnect ;;
     logger Info MsgConnectionClosed)
    (fun error => logger Error_ (MsgErrorWhileDisconnecting error)).

(** The 'unhandledRejection' listener. *)
Definition onUnhandledRejection (unhandledRejection : JSError) : Prog :=
  logger Warn MsgUnhandledShuttingDown ;;
  logger Error_ (MsgUnhandledErr unhandledRejection) ;;
  logger Error_ (MsgUnhandledStack unhandledRejection) ;;
  closeAllExternalServices ;;
  server_close (ProcessExit 1).

(** The 'SIGINT' listener. *)
Definition onSigint : Prog :=
  logger Warn MsgSigintReceived ;;
  closeAllExternalServices ;;
  logger Warn MsgProcessTerminated ;;
  server_close (ProcessExit 0).

(** The asynchronous start-up function. *)
Definition startup : Prog :=
  do (Require LibApp) ;;
  do (Require LibPrisma) ;;
  tryCatch
    (logger Warn MsgTryingToConnect ;;
     await Connect ;;
     logger Info MsgConnectionEstablished)
    (fun error => logger Error_ (MsgErrorWhileConnecting error)) ;;
  do (Require LibInitialize) ;;
  do (AppSetPort port) ;;
  do (On HAppError) ;;
  do CreateServer ;;
  do (On HUnhandledRejection) ;;
  do (On HSigint) ;;
  do (Listen port) ;;
  do (On HServerError) ;;
  do (On HServerListening).

(** The module body: the 'uncaughtException' listener, then the call of
    the start-up function. *)
Definition www : Prog :=
  do (On HUncaughtException) ;;
  startup.

End Script.

(* ================================================================== *)
(** ** The process on the event loop                                   *)
(* ================================================================== *)

(** What the environment can deliver, one per turn of the loop. *)
Inductive Input : Type :=
| Settle (n : nat) (r : Settled)      (* the n-th pending database promise settles *)
| Closed                              (* the listener emits 'close' *)
| Sigint                              (* the interrupt signal *)
| UnhandledRejection (e : JSError)    (* a promise rejected with no handler *)
| ServerError (e : JSError)           (* the listener emits 'error' *)
| Listening                           (* the listener emits 'listening' *)
| UncaughtException (e : JSError).    (* an exception reaches the top of a turn *)

(** What is observed, in the order it happens. *)
Inductive Event : Type :=
| EvIn (i : Input)                    (* a turn starts on this input *)
| EvResume (op : DbOp) (r : Settled)  (* a turn starts: the task awaiting op resumes *)
| EvDo (e : Effect)
| EvCall (op : DbOp)                  (* db.$connect() or db.$disconnect() is called *)
| EvServerClose                       (* server.close(cb) is called *)
| EvThrow (e : JSError)
| EvExit (c : Z).                     (* process.exit(c) *)

Inductive Status : Type :=
| Running
| Exited (c : Z)      (* process.exit(c) was called *)
| Crashed             (* an exception with no 'uncaughtException' listener *)
| Killed.             (* the interrupt signal with no 'SIGINT' listener *)

(** A task suspended on a database promise. *)
Definition Suspended : Type := (DbOp * (Settled -> Prog))%type.

Record Process : Type := mkProcess {
  portOf : PortValue;            (* the module constant [port] *)
  log : list Event;              (* most recent first *)
  handlers : list Handler;       (* listeners attached so far *)
  awaiting : list Suspended;     (* tasks suspended on a database promise *)
  closing : list Prog;           (* callbacks given to server.close, oldest first *)
  listenCalled : bool;           (* server.listen(port) was called *)
  status : Status
}.

(** Events in the order they happened. *)
Definition trace (st : Process) : list Event := rev (log st).

Definition registered (h : Handler) (st : Process) : bool :=
  existsb (Handler_eqb h) (handlers st).

Definition record (ev : Event) (st : Process) : Process :=
  mkProcess (portOf st) (ev :: log st) (handlers st) (awaiting st)
            (closing st) (listenCalled st) (status st).

Definition perform (e : Effect) (st : Process) : Process :=
  mkProcess (portOf st) (EvDo e :: log st)
            (match e with On h => h :: handlers st | _ => handlers st end)
            (awaiting st) (closing st)
            (match e with Listen _ => true | _ => listenCalled st end)
            (status st).

Definition suspend (op : DbOp) (k : Settled -> Prog) (st : Process) : Process :=
  mkProcess (portOf st) (EvCall op :: log st) (handlers st)
            (awaiting st ++ [(op, k)]) (closing st) (listenCalled st) (status st).

Definition closeRequested (cb : Prog) (st : Process) : Process :=
  mkProcess (portOf st) (EvServerClose :: log st) (handlers st) (awaiting st)
            (closing st ++ [cb]) (listenCalled st) (status st).

Definition exited (c : Z) (st : Process) : Process :=
  mkProcess (portOf st) (EvExit c :: log st) (handlers st) (awaiting st)
            (closing st) (listenCalled st) (Exited c).

Definition setStatus (s : Status) (st : Process) : Process :=
  mkProcess (portOf st) (log st) (handlers st) (awaiting st)
            (closing st) (listenCalled st) s.

(** Runs a program until it returns, suspends, throws or exits; the
    second component is the exception it threw, if any. *)
Fixpoint exec (p : Prog) (st : Process) : Process * option JSError :=
  match p with
  | Return => (st, None)
  | Do e k => exec k (perform e st)
  | Await op k => (suspend op k st, None)
  | ServerClose cb k => exec k (closeRequested cb st)
  | Throw e => (record (EvThrow e) st, Some e)
  | ProcessExit c => (exited c st, None)
  end.

(** An exception nobody caught: the 'uncaughtException' listener runs if
    there is one, else the process dies. *)
Definition uncaught (e : JSError) (st : Process) : Process :=
  if registered HUncaughtException st
  then fst (exec (onUncaughtException e) st)
  else setStatus Crashed st.

(** A listener called synchronously by an emitter. *)
Definition runSync (p : Prog) (st : Process) : Process :=
  match exec p st with
  | (st', None) => st'
  | (st', Some e) => uncaught e st'
  end.

(** A rejected promise nobody handles: the 'unhandledRejection' listener
    runs if there is one, else the rejection is raised as an uncaught
    exception (the default of Node.js since version 15).  The listener
    itself throws nothing. *)
Definition rejected (e : JSError) (st : Process) : Process :=
  if registered HUnhandledRejection st
  then fst (exec (onUnhandledRejection e) st)
  else uncaught e st.

(** A step of an asynchronous function: what it throws rejects its
    promise, which nobody handles. *)
Definition runAsync (p : Prog) (st : Process) : Process :=
  match exec p st with
  | (st', None) => st'
  | (st', Some e) => rejected e st'
  end.

Fixpoint removeNth {A : Type} (n : nat) (l : list A) : list A :=
  match n, l with
  | _, [] => []
  | O, _ :: r => r
  | S m, x :: r => x :: removeNth m r
  end.

(** The callbacks of a 'close' emission, in the order they were given,
    as long as the process lives. *)
Fixpoint runCallbacks (cbs : list Prog) (st : Process) : Process :=
  match cbs with
  | [] => st
  | cb :: rest =>
      match status st with
      | Running => runCallbacks rest (runSync cb st)
      | _ => st
      end
  end.

Definition setAwaiting (a : list Suspended) (st : Process) : Process :=
  mkProcess (portOf st) (log st) (handlers st) a
            (closing st) (listenCalled st) (status st).

Definition setClosing (c : list Prog) (st : Process) : Process :=
  mkProcess (portOf st) (log st) (handlers st) (awaiting st)
            c (listenCalled st) (status st).

(** One turn of the loop.  A process that has ended takes no input; an
    input that cannot occur in the state (no such pending promise, no
    close requested, no listener yet) is not a turn.  A resumed task runs
    to its next suspension within the turn: the promise jobs between
    [await closeAllExternalServices()] and the statements after it let no
    signal, listener event or settlement in between. *)
Definition step (st : Process) (i : Input) : Process :=
  match status st with
  | Running =>
      match i with
      | Settle n r =>
          match nth_error (awaiting st) n with
          | Some (op, k) =>
              runAsync (k r)
                (record (EvResume op r) (setAwaiting (removeNth n (awaiting st)) st))
          | None => st
          end
      | Closed =>
          match closing st with
          | [] => st
          | cbs => runCallbacks cbs (record (EvIn Closed) (setClosing [] st))
          end
      | Sigint =>
          if registered HSigint st
          then runAsync onSigint (record (EvIn Sigint) st)
          else setStatus Killed (record (EvIn Sigint) st)
      | UnhandledRejection e =>
          rejected e (record (EvIn i) st)
      | ServerError e =>
          if listenCalled st then
            if registered HServerError st
            then runSync (onError (portOf st) e) (record (EvIn i) st)
            else uncaught e (record (EvIn i) st)
          else st
      | Listening =>
          if listenCalled st && registered HServerListening st
          then runSync (onListening (portOf st)) (record (EvIn Listening) st)
          else st
      | UncaughtException e =>
          uncaught e (record (EvIn i) st)
      end
  | _ => st
  end.

Definition run (st : Process) (inputs : list Input) : Process :=
  fold_left step inputs st.

(** The process when the module has been loaded: the module body has run
    up to the first suspension of the start-up function. *)
Definition boot (p : PortValue) : Process :=
  runAsync (www p) (mkProcess p [] [] [] [] false Running).

Definition loaded (env_PORT : option jsstring) : Process :=
  boot (port env_PORT).

(** The first suspension point of a program. *)
Fixpoint suspension (p : Prog) : option Suspended :=
  match p with
  | Do _ k => suspension k
  | ServerClose _ k => suspension k
  | Await op k => Some (op, k)
  | _ => None
  end.

(* ================================================================== *)
(** ** Vocabulary of the statements                                    *)
(* ================================================================== *)

(** *** Port strings *)

(** The value of a digit sequence, by the weight of each position. *)
Fixpoint decimalValue (ds : jsstring) : N :=
  match ds with
  | [] => 0
  | d :: r => digitValue d * 10 ^ N.of_nat (List.length r) + decimalValue r
  end%N.

Definition startsWithDigit (s : jsstring) : bool :=
  match s with
  | c :: _ => isDigit c
  | [] => false
  end.

(** An optional sign. *)
Inductive SignPrefix : jsstring -> bool -> Prop :=
| NoSign : SignPrefix [] false
| PlusSign : SignPrefix [plus_sign] false
| MinusSign : SignPrefix [minus_sign] true.

(** [s] parses as a base-10 integer of sign [neg] and magnitude [mag]:
    white space, an optional sign, a longest non-empty run of digits, and
    anything after it. *)
Inductive ParsesAs (s : jsstring) (neg : bool) (mag : N) : Prop :=
| ParsesAs_intro (ws sg ds rest : jsstring) :
    s = ws ++ sg ++ ds ++ rest ->
    forallb isStrWhiteSpaceChar ws = true ->
    SignPrefix sg neg ->
    ds <> [] ->
    forallb isDigit ds = true ->
    startsWithDigit rest = false ->
    mag = decimalValue ds ->
    ParsesAs s neg mag.


(** *** Traces *)

Definition isStimulus (ev : Event) : bool :=
  match ev with
  | EvIn _ | EvResume _ _ => true
  | _ => false
  end.

(** The input of the turn that a history (most recent first) ends in. *)
Definition stimulus (older : list Event) : option Event :=
  find isStimulus older.

(** The same for a prefix of a trace, in the order of time. *)
Definition turnOf (pre : list Event) : option Event :=
  stimulus (rev pre).

Definition isDisconnectCall (ev : Event) : bool :=
  match ev with EvCall Disconnect => true | _ => false end.

Definition isServerClose (ev : Event) : bool :=
  match ev with EvServerClose => true | _ => false end.

Definition isDisconnectSettled (ev : Event) : bool :=
  match ev with EvResume Disconnect _ => true | _ => false end.

(** The first log line of each of the two shutdown listeners. *)
Definition isShutdownEntry (ev : Event) : bool :=
  match ev with
  | EvDo (Log Warn MsgSigintReceived)
  | EvDo (Log Warn MsgUnhandledShuttingDown) => true
  | _ => false
  end.


Definition count (f : Event -> bool) (l : list Event) : nat :=
  List.length (filter f l).

Definition isPendingDisconnect (s : Suspended) : bool :=
  match fst s with Disconnect => true | Connect => false end.

(** *** What holds of every state the process reaches *)

(** The suspended tasks are the start-up function at its connect, or a
    shutdown listener at its disconnect. *)
Definition suspOK (p : PortValue) (s : Suspended) : Prop :=
  Some s = suspension (www p) \/
  Some s = suspension onSigint \/
  exists e, Some s = suspension (onUnhandledRejection e).

(** The callbacks waiting for 'close' are the two of the script. *)
Definition callbackOK (cb : Prog) : Prop :=
  cb = ProcessExit 0 \/ cb = ProcessExit 1.

(** In which turns the process may exit: in a 'close' callback, in the
    turn of a listener error, of an uncaught exception, or of an unhandled
    rejection that arrived before its listener was attached. *)
Definition exitTurn (older : list Event) : Prop :=
  match stimulus older with
  | Some (EvIn Closed) => True
  | Some (EvIn (ServerError _)) => True
  | Some (EvIn (UncaughtException _)) => True
  | Some (EvIn (UnhandledRejection _)) =>
      ~ In (EvDo (On HUnhandledRejection)) older
  | _ => False
  end.

(** What each event requires of the events before it ([older], most
    recent first). *)
Definition eventOK (ev : Event) (older : list Event) : Prop :=
  match ev with
  | EvServerClose =>
      In (EvCall Disconnect) older /\
      exists r, stimulus older = Some (EvResume Disconnect r)
  | EvResume Disconnect _ => In (EvCall Disconnect) older
  | EvIn Closed => In EvServerClose older
  | EvIn (ServerError _) => In (EvDo (On HServerError)) older
  | EvExit _ => exitTurn older /\ forall c, ~ In (EvExit c) older
  | EvDo (Listen _) =>
      In (EvDo (On HUnhandledRejection)) older /\
      In (EvDo (On HSigint)) older
  | _ => True
  end.

(** What the event just before requires of an event. *)
Definition followsOK (ev : Event) (older : list Event) : Prop :=
  match older with
  | EvDo (Listen _) :: _ => ev = EvDo (On HServerError)
  | EvExit _ :: _ => False
  | _ => True
  end.

Fixpoint history (l : list Event) : Prop :=
  match l with
  | [] => True
  | ev :: older => eventOK ev older /\ followsOK ev older /\ history older
  end.

Definition statusOK (s : Status) (l : list Event) : Prop :=
  match s with
  | Exited c => exists older, l = EvExit c :: older
  | _ => forall c, ~ In (EvExit c) l
  end.

Record Inv (st : Process) : Prop := mkInv {
  inv_history : history (log st);
  inv_status : statusOK (status st) (log st);
  inv_head : forall p older, log st <> EvDo (Listen p) :: older;
  inv_handlers : forall h, In h (handlers st) <-> In (EvDo (On h)) (log st);
  inv_uncaught : registered HUncaughtException st = true;
  inv_listen :
    listenCalled st = true <-> exists p, In (EvDo (Listen p)) (log st);
  inv_awaiting : Forall (suspOK (portOf st)) (awaiting st);
  inv_pending :
    forall k, In (Disconnect, k) (awaiting st) -> In (EvCall Disconnect) (log st);
  inv_closing : Forall callbackOK (closing st);
  inv_closing_log : closing st <> [] -> In EvServerClose (log st);
  inv_calls :
    count isDisconnectCall (log st) = count isShutdownEntry (log st);
  inv_settled :
    count isDisconnectCall (log st) =
    count isDisconnectSettled (log st)
    + List.length (filter isPendingDisconnect (awaiting st));
  inv_closes :
    count isServerClose (log st) = count isDisconnectSettled (log st)
}.

(** *** The start-up, the origin of an exit, inputs that end nothing *)

Definition isConnectCall (ev : Event) : bool :=
  match ev with EvCall Connect => true | _ => false end.

Definition isConnectSettled (ev : Event) : bool :=
  match ev with EvResume Connect _ => true | _ => false end.

Definition isListen (ev : Event) : bool :=
  match ev with EvDo (Listen _) => true | _ => false end.

Definition isPendingConnect (s : Suspended) : bool :=
  match fst s with Connect => true | Disconnect => false end.

(** The listeners the start-up function attaches, the last one first. *)
Definition startupHandlers : list Handler :=
  [HServerListening; HServerError; HSigint; HUnhandledRejection; HAppError].

(** The start-up is either suspended at its connect, with only the
    listener of the module body attached, or over, with all of them
    attached and listen called once. *)
Definition startupPhase (st : Process) : Prop :=
  (count isConnectSettled (log st) = 0 /\
   List.length (filter isPendingConnect (awaiting st)) = 1 /\
   listenCalled st = false /\
   handlers st = [HUncaughtException] /\
   count isListen (log st) = 0)
  \/
  (count isConnectSettled (log st) = 1 /\
   List.length (filter isPendingConnect (awaiting st)) = 0 /\
   listenCalled st = true /\
   handlers st = startupHandlers ++ [HUncaughtException] /\
   count isListen (log st) = 1).

Record Startup (st : Process) : Prop := mkStartup {
  su_connect : count isConnectCall (log st) = 1;
  su_phase : startupPhase st
}.

(** The interrupt has been delivered. *)
Definition interrupted (l : list Event) : Prop := In (EvIn Sigint) l.

(** Where a zero exit code can come from: only the 'SIGINT' listener
    leaves a task, then a callback, that exits with 0. *)
Record Origins (st : Process) : Prop := mkOrigins {
  or_awaiting :
    forall s, In s (awaiting st) -> Some s = suspension onSigint ->
              interrupted (log st);
  or_closing : In (ProcessExit 0) (closing st) -> interrupted (log st);
  or_status :
    match status st with
    | Exited c =>
        (c = 0%Z \/ c = 1%Z) /\
        (c = 0%Z -> interrupted (log st) /\ In (EvIn Closed) (log st))
    | Crashed => False
    | _ => True
    end
}.

(** Inputs that by themselves end no process that has its shutdown
    listeners: interrupts, unhandled rejections, settlements and the
    report that the listener listens. *)
Definition quiet (i : Input) : bool :=
  match i with
  | Sigint | UnhandledRejection _ | Settle _ _ | Listening => true
  | _ => false
  end.

(* ================================================================== *)
(** ** The port resolver                                               *)
(* ================================================================== *)

Section PortResolver.

Local Open Scope N_scope.

Lemma mathInt_from (ds : jsstring) (acc : N) :
  fold_left (fun a c => 10 * a + digitValue c) ds acc
  = acc * 10 ^ N.of_nat (List.length ds) + decimalValue ds.
Proof.
  revert acc; induction ds as [|d r IH]; intro acc.
  - cbn. lia.
  - cbn [fold_left decimalValue List.length]. rewrite IH.
    rewrite Nat2N.inj_succ, N.pow_succ_r'. lia.
Qed.

Lemma mathInt_decimalValue (ds : jsstring) : mathInt ds = decimalValue ds.
Proof. unfold mathInt. rewrite mathInt_from. lia. Qed.

Lemma digit_bounds (c : code_unit) : isDigit c = true -> 48 <= c <= 57.
Proof.
  unfold isDigit. intro H. apply andb_prop in H as [H1 H2].
  apply N.leb_le in H1, H2. lia.
Qed.

Lemma digit_not_space (c : code_unit) :
  isDigit c = true -> isStrWhiteSpaceChar c = false.
Proof.
  intro H. apply digit_bounds in H.
  unfold isStrWhiteSpaceChar. cbn [existsb].
  repeat match goal with
         | |- context [N.eqb c ?k] =>
             destruct (N.eqb_spec c k); [lia|]
         end.
  destruct (N.leb_spec 8192 c); [lia|]. reflexivity.
Qed.

Lemma digit_not_sign (c : code_unit) :
  isDigit c = true -> N.eqb c plus_sign = false /\ N.eqb c minus_sign = false.
Proof.
  intro H. apply digit_bounds in H. unfold plus_sign, minus_sign.
  split; apply N.eqb_neq; lia.
Qed.

Lemma trimStart_spaces (ws t : jsstring) :
  forallb isStrWhiteSpaceChar ws = true -> trimStart (ws ++ t) = trimStart t.
Proof.
  induction ws as [|c r IH]; intro H; [reflexivity|].
  cbn in H. apply andb_prop in H as [Hc Hr].
  cbn [app trimStart]. rewrite Hc. auto.
Qed.



Lemma leadingDigits_app (ds rest : jsstring) :
  forallb isDigit ds = true -> startsWithDigit rest = false ->
  leadingDigits (ds ++ rest) = ds.
Proof.
  intros Hd Hr. induction ds as [|d r IH].
  - destruct rest as [|c t]; [reflexivity|]. cbn in *. now rewrite Hr.
  - cbn in Hd. apply andb_prop in Hd as [Hd1 Hd2].
    cbn [app leadingDigits]. rewrite Hd1. f_equal. auto.
Qed.


Lemma toNumber_not_NaN (neg : bool) (mag : N) : isNaN (toNumber neg mag) = false.
Proof. unfold toNumber. destruct (N.eqb mag 0), neg; reflexivity. Qed.

(** A string that parses as an integer is read as that integer. *)
Lemma parseInt10_parses (s : jsstring) (neg : bool) (mag : N) :
  ParsesAs s neg mag -> parseInt10 s = toNumber neg mag.
Proof.
  intros [ws sg ds rest -> Hws Hsg Hne Hds Hrest ->].
  unfold parseInt10. rewrite trimStart_spaces by exact Hws.
  destruct ds as [|d ds']; [congruence|].
  assert (Hd : isDigit d = true) by (cbn in Hds; now apply andb_prop in Hds).
  pose proof (digit_not_space d Hd) as Hsp.
  pose proof (digit_not_sign d Hd) as [Hp Hm].
  destruct Hsg.
  - cbn [app trimStart signOf dropSign]. rewrite Hsp.
    cbn [signOf dropSign]. rewrite Hp, Hm. cbn [orb].
    change (d :: ds' ++ rest) with ((d :: ds') ++ rest).
    rewrite leadingDigits_app by assumption.
    now rewrite mathInt_decimalValue.
  - change ([plus_sign] ++ (d :: ds') ++ rest)
      with (plus_sign :: (d :: ds') ++ rest).
    cbn [trimStart]. change (isStrWhiteSpaceChar plus_sign) with false.
    cbn [signOf dropSign]. change (N.eqb plus_sign minus_sign) with false.
    change (N.eqb plus_sign plus_sign) with true. cbn [orb].
    rewrite leadingDigits_app by assumption.
    now rewrite mathInt_decimalValue.
  - change ([minus_sign] ++ (d :: ds') ++ rest)
      with (minus_sign :: (d :: ds') ++ rest).
    cbn [trimStart]. change (isStrWhiteSpaceChar minus_sign) with false.
    cbn [signOf dropSign]. change (N.eqb minus_sign minus_sign) with true.
    rewrite orb_true_r.
    rewrite leadingDigits_app by assumption.
    now rewrite mathInt_decimalValue.
Qed.




End PortResolver.





(* ================================================================== *)
(** ** Single turns and single shutdown paths                          *)
(* ================================================================== *)

Lemma nth_error_snoc {A : Type} (l : list A) (x : A) :
  nth_error (l ++ [x]) (List.length l) = Some x.
Proof. induction l as [|a l IH]; cbn; auto. Qed.

Lemma removeNth_snoc {A : Type} (l : list A) (x : A) :
  removeNth (List.length l) (l ++ [x]) = l.
Proof. induction l as [|a l IH]; cbn; congruence. Qed.

Lemma strictEq_true (v : option string) (lit : string) :
  strictEq v lit = true <-> v = Some lit.
Proof.
  destruct v as [s|]; cbn.
  - rewrite String.eqb_eq. split; congruence.
  - split; discriminate.
Qed.

Lemma strictEq_false (v : option string) (lit : string) :
  strictEq v lit = false <-> v <> Some lit.
Proof.
  rewrite <- strictEq_true. destruct (strictEq v lit); split; congruence.
Qed.

(** Splits a state into its fields and evaluates what is known of it. *)
Ltac open_state st :=
  destruct st as [? ? ? ? ? ? ?]; unfold registered in *; cbn in *; subst.

(** Puts a reversed log into the order of time. *)
Ltac in_time := unfold trace; cbn; repeat rewrite <- app_assoc; cbn [app].

(** C5.  The exit code of each trigger: an interrupt ends in
    [process.exit(0)], an unhandled rejection in [process.exit(1)], each
    once its disconnect has settled (either way) and the listener has
    closed, no other shutdown being under way when it starts; a listen
    error with code EACCES or EADDRINUSE ends in [process.exit(1)]. *)
Theorem exit_codes (st : Process) :
  status st = Running ->
  (registered HSigint st = true -> closing st = [] -> forall r,
     status (run st [Sigint; Settle (List.length (awaiting st)) r; Closed])
     = Exited 0) /\
  (registered HUnhandledRejection st = true -> closing st = [] -> forall e r,
     status (run st [UnhandledRejection e;
                     Settle (List.length (awaiting st)) r; Closed])
     = Exited 1) /\
  (listenCalled st = true -> registered HServerError st = true -> forall e,
     syscall e = Some "listen"%string ->
     code e = Some "EACCES"%string \/ code e = Some "EADDRINUSE"%string ->
     status (step st (ServerError e)) = Exited 1).
Proof.
  intro Hs. repeat split.
  - intros Hr Hc r. open_state st.
    unfold run, step, rejected, registered. cbn. rewrite Hr. cbn.
    rewrite nth_error_snoc, removeNth_snoc.
    destruct r; reflexivity.
  - intros Hr Hc e r. open_state st.
    unfold run, step, rejected, registered. cbn. rewrite Hr. cbn.
    rewrite nth_error_snoc, removeNth_snoc.
    destruct r; reflexivity.
  - intros Hl Hr e Hsys Hcode. open_state st.
    unfold step, registered. cbn. rewrite Hr.
    unfold runSync, onError. rewrite Hsys. cbn.
    destruct Hcode as [-> | ->]; reflexivity.
Qed.

Lemma exit_codes_witness :
  let st := run (loaded None) [Settle 0 Resolved; Listening] in
  let e := mkError (Some "listen"%string) (Some "EADDRINUSE"%string) in
  status st = Running /\
  status (run st [Sigint; Settle 0 Resolved; Closed]) = Exited 0 /\
  status (run st [UnhandledRejection e; Settle 0 (Rejected e); Closed])
  = Exited 1 /\
  status (step st (ServerError e)) = Exited 1.
Proof.
  intros st e.
  assert (Hs : status st = Running) by reflexivity.
  split; [exact Hs|]. split.
  { apply (proj1 (exit_codes st Hs)); reflexivity. }
  split.
  { apply (proj1 (proj2 (exit_codes st Hs))); reflexivity. }
  apply (proj2 (proj2 (exit_codes st Hs))); try reflexivity.
  right. reflexivity.
Defined.

(** C6.  The listener error handler takes an error in hand only when its
    [syscall] is the listen operation and its code is EACCES or
    EADDRINUSE.  An error of another syscall is thrown again as it is, and
    so is a listen error of another code; the handler neither logs nor
    exits, and the error goes on as an uncaught exception. *)
Theorem onError_rethrows (p : PortValue) (e : JSError) :
  (syscall e <> Some "listen"%string -> onError p e = Throw e) /\
  (syscall e = Some "listen"%string ->
   code e <> Some "EACCES"%string -> code e <> Some "EADDRINUSE"%string ->
   onError p e = Throw e) /\
  (onError p e <> Throw e ->
   syscall e = Some "listen"%string /\
   (code e = Some "EACCES"%string \/ code e = Some "EADDRINUSE"%string)) /\
  (forall st,
     status st = Running -> listenCalled st = true ->
     registered HServerError st = true -> portOf st = p ->
     onError p e = Throw e ->
     step st (ServerError e)
     = uncaught e (record (EvThrow e) (record (EvIn (ServerError e)) st))).
Proof.
  repeat split.
  - intro H. apply strictEq_false in H. unfold onError. now rewrite H.
  - intros H1 H2 H3.
    apply strictEq_true in H1. apply strictEq_false in H2, H3.
    unfold onError. now rewrite H1, H2, H3.
  - unfold onError in H.
    destruct (strictEq (syscall e) "listen") eqn:E; [|now elim H].
    now apply strictEq_true.
  - unfold onError in H.
    destruct (strictEq (syscall e) "listen"); [|now elim H]. cbn in H.
    destruct (strictEq (code e) "EACCES") eqn:E1;
      [left; now apply strictEq_true|].
    destruct (strictEq (code e) "EADDRINUSE") eqn:E2;
      [right; now apply strictEq_true|].
    now elim H.
  - intros st Hs Hl Hr Hp Ht. unfold step. rewrite Hs, Hl, Hr, Hp.
    unfold runSync. now rewrite Ht.
Qed.

Lemma onError_rethrows_witness :
  let other := mkError (Some "read"%string) (Some "EADDRINUSE"%string) in
  let odd := mkError (Some "listen"%string) (Some "ENOTFOUND"%string) in
  let st := run (loaded None) [Settle 0 Resolved] in
  onError (port None) other = Throw other /\
  onError (port None) odd = Throw odd /\
  status (step st (ServerError odd)) = Exited 1 /\
  In (EvThrow odd) (trace (step st (ServerError odd))).
Proof.
  intros other odd st.
  assert (H1 : onError (port None) other = Throw other).
  { apply (proj1 (onError_rethrows (port None) other)). discriminate. }
  assert (H2 : onError (port None) odd = Throw odd).
  { apply (proj1 (proj2 (onError_rethrows (port None) odd)));
      [reflexivity|discriminate|discriminate]. }
  split; [exact H1|]. split; [exact H2|].
  rewrite (proj2 (proj2 (proj2 (onError_rethrows (port None) odd))) st
             eq_refl eq_refl eq_refl eq_refl H2).
  split; [reflexivity|]. vm_compute. tauto.
Defined.

(** C7.  The 'uncaughtException' listener does not go through the shutdown
    sequence: it logs and calls [process.exit(1)] in the same turn, with
    no call of [db.$disconnect()] and none of [server.close]. *)
Theorem uncaughtException_exits (st : Process) (e : JSError) :
  status st = Running ->
  registered HUncaughtException st = true ->
  let st' := step st (UncaughtException e) in
  trace st' =
    trace st ++
    [EvIn (UncaughtException e);
     EvDo (Log Error_ MsgUncaughtShuttingDown);
     EvDo (Log Error_ (MsgUncaughtErr e));
     EvDo (Log Error_ (MsgUncaughtStack e));
     EvDo (ConsoleError e);
     EvExit 1] /\
  status st' = Exited 1 /\
  awaiting st' = awaiting st /\
  closing st' = closing st /\
  count isDisconnectCall (log st') = count isDisconnectCall (log st) /\
  count isServerClose (log st') = count isServerClose (log st).
Proof.
  intros Hs Hr. open_state st.
  unfold step, uncaught, registered. cbn. rewrite Hr.
  repeat split. in_time. reflexivity.
Qed.

Lemma uncaughtException_exits_witness :
  let st := run (loaded None) [Settle 0 Resolved; Listening] in
  let e := mkError None None in
  status st = Running /\
  registered HUncaughtException st = true /\
  status (step st (UncaughtException e)) = Exited 1 /\
  count isDisconnectCall (log (step st (UncaughtException e))) = 0.
Proof.
  intros st e.
  assert (Hs : status st = Running) by reflexivity.
  assert (Hr : registered HUncaughtException st = true) by reflexivity.
  split; [exact Hs|]. split; [exact Hr|].
  destruct (uncaughtException_exits st e Hs Hr) as [_ [H1 [_ [_ [H2 _]]]]].
  split; [exact H1|]. rewrite H2. reflexivity.
Defined.


(** C9.  A failed disconnect does not stop the shutdown: whatever error
    the disconnect rejects with, it is logged and nothing else happens to
    it; the listener is closed next and the process exits with the code of
    the trigger, 0 for the interrupt and 1 for the unhandled rejection. *)
Theorem disconnect_failure_not_fatal (st : Process) (e : JSError) :
  status st = Running ->
  closing st = [] ->
  (registered HSigint st = true ->
   let st' := run st [Sigint;
                      Settle (List.length (awaiting st)) (Rejected e);
                      Closed] in
   trace st' =
     trace st ++
     [EvIn Sigint;
      EvDo (Log Warn MsgSigintReceived);
      EvDo (Log Warn MsgTryingToDisconnect);
      EvCall Disconnect;
      EvResume Disconnect (Rejected e);
      EvDo (Log Error_ (MsgErrorWhileDisconnecting e));
      EvDo (Log Warn MsgProcessTerminated);
      EvServerClose;
      EvIn Closed;
      EvExit 0] /\
   status st' = Exited 0) /\
  (registered HUnhandledRejection st = true ->
   forall e0,
   let st' := run st [UnhandledRejection e0;
                      Settle (List.length (awaiting st)) (Rejected e);
                      Closed] in
   trace st' =
     trace st ++
     [EvIn (UnhandledRejection e0);
      EvDo (Log Warn MsgUnhandledShuttingDown);
      EvDo (Log Error_ (MsgUnhandledErr e0));
      EvDo (Log Error_ (MsgUnhandledStack e0));
      EvDo (Log Warn MsgTryingToDisconnect);
      EvCall Disconnect;
      EvResume Disconnect (Rejected e);
      EvDo (Log Error_ (MsgErrorWhileDisconnecting e));
      EvServerClose;
      EvIn Closed;
      EvExit 1] /\
   status st' = Exited 1).
Proof.
  intros Hs Hc. split.
  - intro Hr. open_state st.
    unfold run, step, rejected, registered. cbn. rewrite Hr. cbn.
    rewrite nth_error_snoc, removeNth_snoc. cbn.
    split; [|reflexivity]. in_time. reflexivity.
  - intros Hr e0. open_state st.
    unfold run, step, rejected, registered. cbn. rewrite Hr. cbn.
    rewrite nth_error_snoc, removeNth_snoc. cbn.
    split; [|reflexivity]. in_time. reflexivity.
Qed.

Lemma disconnect_failure_not_fatal_witness :
  let st := run (loaded None) [Settle 0 Resolved; Listening] in
  let e := mkError None (Some "P1001"%string) in
  status st = Running /\
  closing st = [] /\
  status (run st [Sigint; Settle 0 (Rejected e); Closed]) = Exited 0 /\
  status (run st [UnhandledRejection e; Settle 0 (Rejected e); Closed])
  = Exited 1.
Proof.
  intros st e.
  assert (Hs : status st = Running) by reflexivity.
  assert (Hc : closing st = []) by reflexivity.
  split; [exact Hs|]. split; [exact Hc|]. split.
  - exact (proj2 (proj1 (disconnect_failure_not_fatal st e Hs Hc) eq_refl)).
  - exact (proj2 (proj2 (disconnect_failure_not_fatal st e Hs Hc) eq_refl e)).
Defined.

(* ================================================================== *)
(** ** What holds of every reachable state                             *)
(* ================================================================== *)

Lemma removeNth_In {A : Type} (n : nat) (l : list A) (x : A) :
  In x (removeNth n l) -> In x l.
Proof.
  revert n; induction l as [|a l IH]; intros [|n] H; cbn in *; auto.
  destruct H; eauto.
Qed.

Lemma removeNth_Forall {A : Type} (P : A -> Prop) (n : nat) (l : list A) :
  Forall P l -> Forall P (removeNth n l).
Proof.
  rewrite !Forall_forall. intros H x Hx. eapply H, removeNth_In, Hx.
Qed.

Lemma removeNth_filter {A : Type} (f : A -> bool) (n : nat) (l : list A) (x : A) :
  nth_error l n = Some x ->
  List.length (filter f l)
  = (if f x then 1 else 0) + List.length (filter f (removeNth n l)).
Proof.
  revert n; induction l as [|a l IH]; intros [|n] H; cbn in *; try discriminate.
  - injection H as ->. destruct (f x); reflexivity.
  - destruct (f a); cbn [List.length]; rewrite (IH n H); destruct (f x); lia.
Qed.

Lemma followsOK_running (ev : Event) (l : list Event) :
  (forall p older, l <> EvDo (Listen p) :: older) ->
  (forall c, ~ In (EvExit c) l) ->
  followsOK ev l.
Proof.
  intros H1 H2. destruct l as [|[| |[]| | | |] older]; cbn; auto.
  - now elim (H1 p older).
  - apply (H2 c). now left.
Qed.

Lemma registered_In (h : Handler) (st : Process) :
  registered h st = true <-> In h (handlers st).
Proof.
  unfold registered. rewrite existsb_exists. split.
  - intros [x [Hx E]]. destruct h, x; try discriminate; exact Hx.
  - intro H. exists h. split; [exact H|]. destruct h; reflexivity.
Qed.

Lemma history_listen (l : list Event) (p : PortValue) :
  history l -> In (EvDo (Listen p)) l ->
  (forall q older, l <> EvDo (Listen q) :: older) ->
  In (EvDo (On HUnhandledRejection)) l /\
  In (EvDo (On HSigint)) l /\
  In (EvDo (On HServerError)) l.
Proof.
  induction l as [|ev older IH]; intros H Hin Hhd; [now elim Hin|].
  cbn [history] in H. destruct H as [Hev [Hfol Hold]].
  destruct Hin as [->|Hin]; [now elim (Hhd p older)|].
  destruct older as [|ev' older']; [now elim Hin|].
  destruct (match ev' with EvDo (Listen _) => true | _ => false end) eqn:E.
  - destruct ev' as [| |[]| | | |]; try discriminate.
    cbn in Hfol. subst ev. cbn in Hold. destruct Hold as [[H1 H2] _].
    repeat split; cbn; cbn in H1, H2; tauto.
  - assert (forall q o, ev' :: older' <> EvDo (Listen q) :: o).
    { intros q o Heq. injection Heq as -> _. discriminate. }
    destruct (IH Hold Hin H) as [H1 [H2 H3]].
    repeat split; now right.
Qed.

Lemma boot_inv (p : PortValue) : Inv (boot p).
Proof.
  constructor; cbn.
  - tauto.
  - intros c H. repeat (destruct H as [H|H]; [discriminate|]). exact H.
  - discriminate.
  - intro h. split.
    + intros [<-|[]]. tauto.
    + intros H. repeat (destruct H as [H|H]; [try discriminate; left; congruence|]). elim H.
  - reflexivity.
  - split; [discriminate|]. intros [q H].
    repeat (destruct H as [H|H]; [discriminate|]). elim H.
  - constructor; [|constructor]. left. reflexivity.
  - intros k [H|[]]. discriminate.
  - constructor.
  - tauto.
  - reflexivity.
  - reflexivity.
  - reflexivity.
Qed.

Lemma running_no_exit (st : Process) :
  Inv st -> status st = Running -> forall c, ~ In (EvExit c) (log st).
Proof. intros HI Hs. pose proof (inv_status st HI) as H. now rewrite Hs in H. Qed.

Lemma listen_registered (st : Process) :
  Inv st -> listenCalled st = true ->
  In (EvDo (On HUnhandledRejection)) (log st) /\
  In (EvDo (On HSigint)) (log st) /\
  In (EvDo (On HServerError)) (log st).
Proof.
  intros HI Hl. apply (inv_listen st HI) in Hl as [p Hp].
  apply (history_listen _ p); [apply HI|exact Hp|apply HI].
Qed.

Ltac inv_fields :=
  constructor;
  cbn [portOf log handlers awaiting closing listenCalled status record perform
       suspend closeRequested exited setStatus setAwaiting setClosing].

Ltac no_exit Hne :=
  let c := fresh "c" in
  let H := fresh "H" in
  intros c H; cbn in H;
  repeat (destruct H as [H|H]; [discriminate|]);
  exact (Hne c H).

Ltac inv_solve Hne H4 H6 H7 H8 H9 H10 Haw Hin :=
  first
    [ assumption
    | discriminate
    | solve [no_exit Hne]
    | solve [eexists; reflexivity]
    | solve [cbn; repeat split; auto; try tauto;
             try (eexists; reflexivity); try no_exit Hne]
    | solve [let h0 := fresh "h" in
             intro h0; cbn; rewrite H4; intuition (try discriminate; try congruence)]
    | solve [cbn; rewrite H6; split;
             (let q := fresh "q" in
              let Hq := fresh "Hq" in
              intros [q Hq]; exists q; cbn in *; intuition discriminate)]
    | solve [split; [intros _; eexists; cbn; eauto 20 | reflexivity]]
    | solve [apply Forall_app; split;
             [assumption | repeat constructor; unfold suspOK; cbn; eauto]]
    | solve [repeat constructor]
    | solve [let k0 := fresh "k" in
             let Hk0 := fresh "Hk" in
             intros k0 Hk0; cbn;
             try apply in_app_or in Hk0;
             try (destruct Hk0 as [Hk0|Hk0]);
             try (apply Hin in Hk0);
             try (apply H8 in Hk0); tauto]
    | solve [intros _; cbn; tauto]
    | solve [let Hc := fresh "Hc" in intro Hc; cbn; apply H10 in Hc; tauto]
    | solve [let Hc := fresh "Hc" in intro Hc; now elim Hc]
    | solve [unfold count in *; cbn; rewrite ?filter_app, ?length_app; cbn; lia]
    ].

Lemma step_inv (st : Process) (i : Input) : Inv st -> Inv (step st i).
Proof.
  intro HI. unfold step. destruct (status st) eqn:Hs; try exact HI.
  pose proof (running_no_exit st HI Hs) as Hne.
  assert (Hfol : forall ev, followsOK ev (log st)).
  { intro ev. apply followsOK_running; [apply HI|exact Hne]. }
  pose proof (listen_registered st HI) as Hlr.
  assert (Hreg : forall h, registered h st = true <-> In (EvDo (On h)) (log st)).
  { intro h. rewrite registered_In. apply HI. }
  destruct i as [n r| | |e|e| |e].
  - (* Settle *)
    destruct (nth_error (awaiting st) n) as [[op k]|] eqn:En; [|exact HI].
    assert (Hk : suspOK (portOf st) (op, k)).
    { pose proof (inv_awaiting st HI) as F. rewrite Forall_forall in F.
      eapply F, nth_error_In, En. }
    assert (Hpend : op = Disconnect -> In (EvCall Disconnect) (log st)).
    { intros ->. eapply (inv_pending st HI), nth_error_In, En. }
    pose proof (removeNth_filter isPendingDisconnect n _ _ En) as Hcnt.
    pose proof (removeNth_Forall _ n _ (inv_awaiting st HI)) as Haw.
    assert (Hin : forall x, In x (removeNth n (awaiting st)) -> In x (awaiting st))
      by (intro x; apply removeNth_In).
    destruct HI as [H1 H2 H3 H4 H5 H6 H7 H8 H9 H10 H11 H12 H13].
    destruct st as [p l h a c lc s]. unfold registered in *. cbn in *. subst s.
    destruct Hk as [E|[E|[e E]]]; cbn in E; injection E as -> ->; cbn in Hcnt;
      try specialize (Hpend eq_refl);
      destruct r as [|e']; unfold runAsync; cbn;
      inv_fields; inv_solve Hne H4 H6 H7 H8 H9 H10 Haw Hin.
  - (* Closed *)
    destruct (closing st) as [|cb rest] eqn:Ec; [exact HI|].
    assert (Hcb : callbackOK cb).
    { pose proof (inv_closing st HI) as F. rewrite Ec in F. now inversion F. }
    assert (Hsc : In EvServerClose (log st)).
    { apply (inv_closing_log st HI). rewrite Ec. discriminate. }
    destruct HI as [H1 H2 H3 H4 H5 H6 H7 H8 H9 H10 H11 H12 H13].
    destruct st as [p l h a c lc s]. unfold registered in *. cbn in *. subst s c.
    destruct Hcb as [-> | ->]; cbn; destruct rest; cbn;
      inv_fields; inv_solve Hne H4 H6 H7 H8 H9 H10 H7 H8.
  - (* Sigint *)
    destruct HI as [H1 H2 H3 H4 H5 H6 H7 H8 H9 H10 H11 H12 H13].
    destruct st as [p l h a c lc s]. unfold registered in *. cbn in *. subst s.
    destruct (existsb (Handler_eqb HSigint) h) eqn:Er; unfold runAsync; cbn;
      inv_fields; inv_solve Hne H4 H6 H7 H8 H9 H10 H7 H8.
  - (* UnhandledRejection *)
    pose proof (Hreg HUnhandledRejection) as Hu.
    destruct HI as [H1 H2 H3 H4 H5 H6 H7 H8 H9 H10 H11 H12 H13].
    destruct st as [p l h a c lc s]. unfold registered in *. cbn in *. subst s.
    unfold rejected, uncaught, registered. cbn.
    destruct (existsb (Handler_eqb HUnhandledRejection) h) eqn:Er; cbn;
      [|rewrite H5; cbn];
      inv_fields; try inv_solve Hne H4 H6 H7 H8 H9 H10 H7 H8.
    cbn. repeat split; auto; try no_exit Hne.
    intro H. repeat (destruct H as [H|H]; [discriminate|]).
    apply Hu in H. discriminate.
  - (* ServerError *)
    pose proof (Hreg HServerError) as Hu.
    destruct HI as [H1 H2 H3 H4 H5 H6 H7 H8 H9 H10 H11 H12 H13].
    destruct st as [p l h a c lc s]. unfold registered in *. cbn in *. subst s.
    destruct lc; [|constructor; assumption].
    destruct (Hlr eq_refl) as [_ [_ Hse]].
    rewrite (proj2 Hu Hse).
    unfold runSync, onError, uncaught, registered.
    destruct (strictEq (syscall e) "listen"); cbn;
      [destruct (strictEq (code e) "EACCES"); cbn;
       [|destruct (strictEq (code e) "EADDRINUSE"); cbn]|];
      rewrite ?H5; cbn;
      inv_fields; inv_solve Hne H4 H6 H7 H8 H9 H10 H7 H8.
  - (* Listening *)
    destruct HI as [H1 H2 H3 H4 H5 H6 H7 H8 H9 H10 H11 H12 H13].
    destruct st as [p l h a c lc s]. unfold registered in *. cbn in *. subst s.
    destruct (lc && existsb (Handler_eqb HServerListening) h); cbn;
      inv_fields; inv_solve Hne H4 H6 H7 H8 H9 H10 H7 H8.
  - (* UncaughtException *)
    destruct HI as [H1 H2 H3 H4 H5 H6 H7 H8 H9 H10 H11 H12 H13].
    destruct st as [p l h a c lc s]. unfold registered in *. cbn in *. subst s.
    unfold uncaught, registered. cbn. rewrite H5. cbn.
    inv_fields; inv_solve Hne H4 H6 H7 H8 H9 H10 H7 H8.
Qed.

Lemma run_inv (st : Process) (inputs : list Input) : Inv st -> Inv (run st inputs).
Proof.
  revert st. induction inputs as [|i rest IH]; intros st HI; [exact HI|].
  cbn. apply IH, step_inv, HI.
Qed.


Lemma loaded_inv (env_PORT : option jsstring) (inputs : list Input) :
  Inv (run (loaded env_PORT) inputs).
Proof. apply run_inv, boot_inv. Qed.

(** From the log, most recent first, to the trace in the order of time. *)
Lemma trace_split (st : Process) (pre post : list Event) (ev : Event) :
  trace st = pre ++ ev :: post -> log st = rev post ++ ev :: rev pre.
Proof.
  unfold trace. intro H. apply (f_equal (@rev Event)) in H.
  rewrite rev_involutive in H. rewrite H, rev_app_distr. cbn.
  now rewrite <- app_assoc.
Qed.

Lemma history_suffix (a b : list Event) : history (a ++ b) -> history b.
Proof.
  induction a as [|x a IH]; [auto|]. cbn. intros [_ [_ H]]. auto.
Qed.

Lemma history_event (a older : list Event) (ev : Event) :
  history (a ++ ev :: older) -> eventOK ev older.
Proof. intro H. apply history_suffix in H. apply H. Qed.

Lemma history_next (a older : list Event) (ev next : Event) :
  history (a ++ next :: ev :: older) -> followsOK next (ev :: older).
Proof. intro H. apply history_suffix in H. apply H. Qed.

Lemma In_rev_iff {A : Type} (x : A) (l : list A) : In x (rev l) <-> In x l.
Proof. symmetry. apply in_rev. Qed.

Lemma count_rev (f : Event -> bool) (l : list Event) :
  count f (rev l) = count f l.
Proof.
  unfold count. induction l as [|x l IH]; [reflexivity|].
  cbn. rewrite filter_app, length_app, IH. cbn.
  destruct (f x); cbn; lia.
Qed.

(* ================================================================== *)
(** ** Order of the shutdown steps                                     *)
(* ================================================================== *)

(** C1, as the script has it.  In every run, [server.close] is called only
    by a task that was resumed from its [db.$disconnect()], so after the
    disconnect was attempted; the listener reports 'close' only after
    [server.close] was called; and the process exits last of all, either in
    a 'close' callback, which is where the shutdown started by an interrupt
    or by the 'unhandledRejection' listener exits, or in the turn of a
    listener error, of an uncaught exception, or of an unhandled rejection
    that came before its listener was attached, never in the turn of an
    interrupt or of a settled disconnect. *)
Theorem shutdown_order (env_PORT : option jsstring) (inputs : list Input) :
  let tr := trace (run (loaded env_PORT) inputs) in
  (forall pre post,
     tr = pre ++ EvServerClose :: post ->
     In (EvCall Disconnect) pre /\
     exists r, turnOf pre = Some (EvResume Disconnect r)) /\
  (forall pre post,
     tr = pre ++ EvIn Closed :: post -> In EvServerClose pre) /\
  (forall pre c post,
     tr = pre ++ EvExit c :: post -> post = [] /\ exitTurn (rev pre)).
Proof.
  intro tr. subst tr.
  pose proof (loaded_inv env_PORT inputs) as HI.
  pose proof (inv_history _ HI) as Hh.
  split; [|split].
  - intros pre post E. apply trace_split in E. rewrite E in Hh.
    apply history_event in Hh. destruct Hh as [Hin Hst].
    split; [apply In_rev_iff, Hin|exact Hst].
  - intros pre post E. apply trace_split in E. rewrite E in Hh.
    apply history_event in Hh. apply In_rev_iff, Hh.
  - intros pre c post E. apply trace_split in E. rewrite E in Hh. split.
    + destruct post as [|x post']; [reflexivity|exfalso].
      cbn [rev] in Hh. rewrite <- app_assoc in Hh. cbn [app] in Hh.
      apply history_next in Hh. exact Hh.
    + apply history_event in Hh. apply Hh.
Qed.

Lemma shutdown_order_witness :
  let tr := trace (run (loaded None)
                       [Settle 0 Resolved; Sigint; Settle 0 Resolved; Closed]) in
  tr = firstn 23 tr ++ EvServerClose :: skipn 24 tr /\
  In (EvCall Disconnect) (firstn 23 tr) /\
  tr = firstn 24 tr ++ EvIn Closed :: skipn 25 tr /\
  In EvServerClose (firstn 24 tr) /\
  tr = firstn 25 tr ++ EvExit 0 :: skipn 26 tr /\
  skipn 26 tr = [].
Proof.
  intro tr.
  assert (E1 : tr = firstn 23 tr ++ EvServerClose :: skipn 24 tr) by reflexivity.
  assert (E2 : tr = firstn 24 tr ++ EvIn Closed :: skipn 25 tr) by reflexivity.
  assert (E3 : tr = firstn 25 tr ++ EvExit 0 :: skipn 26 tr) by reflexivity.
  pose proof (shutdown_order None
                [Settle 0 Resolved; Sigint; Settle 0 Resolved; Closed])
    as [H1 [H2 H3]].
  split; [exact E1|]. split; [exact (proj1 (H1 _ _ E1))|].
  split; [exact E2|]. split; [exact (H2 _ _ E2)|].
  split; [exact E3|]. exact (proj1 (H3 _ _ _ E3)).
Defined.

(** C1 as the specification words it fails on the listener error path: a
    listen error with code EADDRINUSE ends the process with no call of
    [db.$disconnect()] and none of [server.close]. *)
Lemma bind_error_skips_shutdown :
  let e := mkError (Some "listen"%string) (Some "EADDRINUSE"%string) in
  let st := run (loaded None) [Settle 0 Resolved; ServerError e] in
  status st = Exited 1 /\
  count isDisconnectCall (trace st) = 0 /\
  count isServerClose (trace st) = 0.
Proof. cbv zeta. split; [|split]; vm_compute; reflexivity. Qed.

(* ================================================================== *)
(** ** How often the shutdown runs                                     *)
(* ================================================================== *)

(** C2, as the script has it.  Nothing guards the shutdown against a
    second run: in every run [db.$disconnect()] is called once for each
    time a shutdown listener was entered, and [server.close] once for each
    of these disconnects that has settled; and from a running process with
    the listeners attached, one more interrupt or unhandled rejection is
    one more call of [db.$disconnect()], whatever ran before. *)
Theorem shutdown_per_invocation (env_PORT : option jsstring) (inputs : list Input) :
  let st := run (loaded env_PORT) inputs in
  count isDisconnectCall (trace st) = count isShutdownEntry (trace st) /\
  count isServerClose (trace st) = count isDisconnectSettled (trace st) /\
  count isDisconnectSettled (trace st) <= count isDisconnectCall (trace st) /\
  (status st = Running -> registered HSigint st = true ->
   count isDisconnectCall (trace (step st Sigint))
   = S (count isDisconnectCall (trace st))) /\
  (status st = Running -> registered HUnhandledRejection st = true ->
   forall e,
   count isDisconnectCall (trace (step st (UnhandledRejection e)))
   = S (count isDisconnectCall (trace st))).
Proof.
  intro st.
  pose proof (loaded_inv env_PORT inputs) as HI. fold st in HI.
  pose proof (inv_calls _ HI) as Hc.
  pose proof (inv_settled _ HI) as Hs.
  pose proof (inv_closes _ HI) as Hcl.
  clear HI. clearbody st. unfold trace.
  split; [|split; [|split; [|split]]].
  - rewrite !count_rev. exact Hc.
  - rewrite !count_rev. exact Hcl.
  - rewrite !count_rev. rewrite Hs. apply Nat.le_add_r.
  - clear Hc Hs Hcl. intros Hs Hr. rewrite !count_rev. open_state st.
    unfold step, registered. cbn. rewrite Hr. reflexivity.
  - clear Hc Hs Hcl. intros Hs Hr e. rewrite !count_rev. open_state st.
    unfold step, rejected, registered. cbn. rewrite Hr. reflexivity.
Qed.

Lemma shutdown_per_invocation_witness :
  let st := run (loaded None) [Settle 0 Resolved; Sigint] in
  status st = Running /\
  registered HSigint st = true /\
  count isDisconnectCall (trace st) = 1 /\
  count isDisconnectCall (trace (step st Sigint)) = 2.
Proof.
  intro st.
  assert (Hs : status st = Running) by reflexivity.
  assert (Hr : registered HSigint st = true) by reflexivity.
  split; [exact Hs|]. split; [exact Hr|]. split; [reflexivity|].
  exact (proj1 (proj2 (proj2 (proj2
           (shutdown_per_invocation None [Settle 0 Resolved; Sigint])))) Hs Hr).
Defined.

(** C2 as the specification words it fails: two interrupts release the
    dependency twice and close the listener twice. *)
Lemma two_interrupts_release_twice :
  let st := run (loaded None)
                [Settle 0 Resolved; Sigint; Sigint;
                 Settle 0 Resolved; Settle 0 Resolved; Closed] in
  count isDisconnectCall (trace st) = 2 /\
  count isServerClose (trace st) = 2 /\
  status st = Exited 0.
Proof. cbv zeta. split; [|split]; vm_compute; reflexivity. Qed.

(* ================================================================== *)
(** ** When the listeners are attached                                 *)
(* ================================================================== *)




(* ================================================================== *)
(** ** More on the port resolver                                       *)
(* ================================================================== *)

Lemma parseInt10_leading_space (ws s : jsstring) :
  forallb isStrWhiteSpaceChar ws = true -> parseInt10 (ws ++ s) = parseInt10 s.
Proof.
  intro H. unfold parseInt10. now rewrite (trimStart_spaces ws s H).
Qed.

Lemma leadingDigits_nil (s : jsstring) :
  leadingDigits s = [] <-> startsWithDigit s = false.
Proof.
  destruct s as [|c r]; cbn; [tauto|].
  destruct (isDigit c); split; intro H; try discriminate; reflexivity.
Qed.

(** X1.  White space in front of the setting does not change the port
    that is read: a number or [false] stays what it is without the white
    space; a named pipe is returned with its white space, as the value
    itself was given. *)
Theorem normalizePort_leading_space (ws s : jsstring) :
  forallb isStrWhiteSpaceChar ws = true ->
  normalizePort (ws ++ s) =
  match normalizePort s with
  | PString _ => PString (ws ++ s)
  | r => r
  end.
Proof.
  intro H. unfold normalizePort. rewrite (parseInt10_leading_space ws s H).
  destruct (isNaN (parseInt10 s)); [reflexivity|].
  destruct (geq0 (parseInt10 s)); reflexivity.
Qed.

Lemma normalizePort_leading_space_witness :
  forallb isStrWhiteSpaceChar (of_string "  ") = true /\
  normalizePort (of_string "  8080") = PNumber (Num 8080) /\
  normalizePort (of_string "  /tmp/a") = PString (of_string "  /tmp/a").
Proof.
  assert (H : forallb isStrWhiteSpaceChar (of_string "  ") = true) by reflexivity.
  split; [exact H|]. split.
  - exact (normalizePort_leading_space (of_string "  ") (of_string "8080") H).
  - exact (normalizePort_leading_space (of_string "  ") (of_string "/tmp/a") H).
Defined.

(** X2.  Which settings become a named pipe: exactly those that, after
    the leading white space and one optional sign, do not go on with a
    digit; among them the empty string, white space alone and a sign
    alone. *)
Theorem normalizePort_pipe_iff (s : jsstring) :
  normalizePort s = PString s <->
  startsWithDigit (dropSign (trimStart s)) = false.
Proof.
  rewrite <- leadingDigits_nil. unfold normalizePort, parseInt10.
  destruct (leadingDigits (dropSign (trimStart s))) as [|d ds] eqn:E.
  - cbn. split; reflexivity.
  - rewrite toNumber_not_NaN.
    split; [|discriminate].
    destruct (geq0 _); discriminate.
Qed.

(** X3.  A minus sign before the digits gives [false], whatever follows
    the digits, except when the digits are all zeros: then the negative
    zero is returned as a port number. *)
Theorem normalizePort_minus (ws ds rest : jsstring) :
  forallb isStrWhiteSpaceChar ws = true ->
  ds <> [] ->
  forallb isDigit ds = true ->
  startsWithDigit rest = false ->
  normalizePort (ws ++ minus_sign :: ds ++ rest) =
  if N.eqb (decimalValue ds) 0 then PNumber NegZero else PFalse.
Proof.
  intros Hws Hne Hds Hrest.
  assert (P : ParsesAs (ws ++ minus_sign :: ds ++ rest) true (decimalValue ds)).
  { apply (ParsesAs_intro _ _ _ ws [minus_sign] ds rest); try assumption;
      try reflexivity. constructor. }
  unfold normalizePort. rewrite (parseInt10_parses _ _ _ P).
  rewrite toNumber_not_NaN. unfold toNumber.
  destruct (N.eqb_spec (decimalValue ds) 0) as [E|E]; [reflexivity|].
  cbn. destruct (Z.leb_spec 0 (- Z.of_N (decimalValue ds))); [lia|reflexivity].
Qed.

Lemma normalizePort_minus_witness :
  normalizePort (of_string "-000") = PNumber NegZero /\
  normalizePort (of_string " -12px") = PFalse.
Proof.
  split.
  - apply (normalizePort_minus [] (of_string "000") []);
      [reflexivity|discriminate|reflexivity|reflexivity].
  - apply (normalizePort_minus (of_string " ") (of_string "12") (of_string "px"));
      [reflexivity|discriminate|reflexivity|reflexivity].
Defined.



(** X5.  The port of the process: with [PORT] unset or empty it is the
    number 5051; any other setting is resolved as it is, so the port is
    never the empty pipe name. *)
Theorem port_default (env_PORT : option jsstring) :
  (env_PORT = None \/ env_PORT = Some [] -> port env_PORT = PNumber (Num 5051)) /\
  (forall s, env_PORT = Some s -> s <> [] -> port env_PORT = normalizePort s) /\
  port env_PORT <> PString [].
Proof.
  split; [|split].
  - intros [-> | ->]; reflexivity.
  - intros s -> Hs. destruct s as [|c r]; [now elim Hs|reflexivity].
  - destruct env_PORT as [[|c r]|]; try discriminate.
    unfold port, portSetting, normalizePort.
    destruct (isNaN _); [discriminate|]. destruct (geq0 _); discriminate.
Qed.

Lemma port_default_witness :
  port (Some []) = PNumber (Num 5051) /\
  port (Some (of_string "3000")) = normalizePort (of_string "3000").
Proof.
  split.
  - apply (proj1 (port_default (Some []))). right. reflexivity.
  - apply (proj1 (proj2 (port_default (Some (of_string "3000"))))
             (of_string "3000") eq_refl). discriminate.
Defined.

(* ================================================================== *)
(** ** The start-up runs once; where exits come from                   *)
(* ================================================================== *)

Lemma boot_startup (p : PortValue) : Startup (boot p).
Proof.
  constructor; [reflexivity|]. left. repeat split.
Qed.

(** Closes a goal on the phase of the start-up. *)
Ltac phase_solve :=
  first
    [ left; repeat split; solve [unfold count in *; cbn in *; rewrite ?filter_app, ?length_app; cbn; lia | reflexivity | assumption]
    | right; repeat split; solve [unfold count in *; cbn in *; rewrite ?filter_app, ?length_app; cbn; lia | reflexivity | assumption] ].

Lemma step_startup (st : Process) (i : Input) :
  Inv st -> Startup st -> Startup (step st i).
Proof.
  intros HI [S1 S2]. unfold step. destruct (status st) eqn:Hs;
    try (constructor; assumption).
  destruct i as [n r| | |e|e| |e].
  - destruct (nth_error (awaiting st) n) as [[op k]|] eqn:En;
      [|constructor; assumption].
    assert (Hk : suspOK (portOf st) (op, k)).
    { pose proof (inv_awaiting st HI) as F. rewrite Forall_forall in F.
      eapply F, nth_error_In, En. }
    pose proof (removeNth_filter isPendingConnect n _ _ En) as Hcnt.
    clear HI. destruct st as [p l h a c lc s]. unfold startupPhase in *.
    cbn in *. subst s.
    destruct Hk as [E|[E|[e E]]]; cbn in E; injection E as -> ->; cbn in Hcnt;
      destruct S2 as [[P1 [P2 [P3 [P4 P5]]]]|[P1 [P2 [P3 [P4 P5]]]]];
      subst h lc; try lia;
      destruct r as [|e']; unfold runAsync; cbn;
      (constructor; [unfold count in *; cbn; lia|]);
      unfold startupPhase; cbn; phase_solve.
  - (* Closed *)
    destruct (closing st) as [|cb rest] eqn:Ec; [constructor; assumption|].
    assert (Hcb : callbackOK cb).
    { pose proof (inv_closing st HI) as F. rewrite Ec in F. now inversion F. }
    clear HI. destruct st as [p l h a c lc s]. unfold startupPhase in *.
    cbn in *. subst s c.
    destruct Hcb as [-> | ->]; cbn; destruct rest; cbn;
      (constructor; [unfold count in *; cbn; lia|]);
      unfold startupPhase; cbn;
      destruct S2 as [[P1 [P2 [P3 [P4 P5]]]]|[P1 [P2 [P3 [P4 P5]]]]];
      phase_solve.
  - (* Sigint *)
    clear HI. destruct st as [p l h a c lc s]. unfold startupPhase in *.
    unfold registered. cbn in *. subst s.
    destruct S2 as [[P1 [P2 [P3 [P4 P5]]]]|[P1 [P2 [P3 [P4 P5]]]]];
      subst h lc; unfold runAsync; cbn;
      (constructor; [unfold count in *; cbn; lia|]);
      unfold startupPhase; cbn; phase_solve.
  - (* UnhandledRejection *)
    clear HI. destruct st as [p l h a c lc s]. unfold startupPhase in *.
    unfold rejected, uncaught, registered. cbn in *. subst s.
    destruct S2 as [[P1 [P2 [P3 [P4 P5]]]]|[P1 [P2 [P3 [P4 P5]]]]];
      subst h lc; cbn;
      (constructor; [unfold count in *; cbn; lia|]);
      unfold startupPhase; cbn; phase_solve.
  - (* ServerError *)
    clear HI. destruct st as [p l h a c lc s]. unfold startupPhase in *.
    unfold registered. cbn in *. subst s.
    destruct S2 as [[P1 [P2 [P3 [P4 P5]]]]|[P1 [P2 [P3 [P4 P5]]]]];
      subst h lc; cbn.
    + constructor; [assumption|]. unfold startupPhase; cbn. phase_solve.
    + unfold runSync, onError, uncaught, registered.
      destruct (strictEq (syscall e) "listen"); cbn;
        [destruct (strictEq (code e) "EACCES"); cbn;
         [|destruct (strictEq (code e) "EADDRINUSE"); cbn]|];
        (constructor; [unfold count in *; cbn; lia|]);
        unfold startupPhase; cbn; phase_solve.
  - (* Listening *)
    clear HI. destruct st as [p l h a c lc s]. unfold startupPhase in *.
    unfold registered. cbn in *. subst s.
    destruct S2 as [[P1 [P2 [P3 [P4 P5]]]]|[P1 [P2 [P3 [P4 P5]]]]];
      subst h lc; cbn;
      (constructor; [unfold count in *; cbn; lia|]);
      unfold startupPhase; cbn; phase_solve.
  - (* UncaughtException *)
    clear HI. destruct st as [p l h a c lc s]. unfold startupPhase in *.
    unfold uncaught, registered. cbn in *. subst s.
    destruct S2 as [[P1 [P2 [P3 [P4 P5]]]]|[P1 [P2 [P3 [P4 P5]]]]];
      subst h lc; cbn;
      (constructor; [unfold count in *; cbn; lia|]);
      unfold startupPhase; cbn; phase_solve.
Qed.

Lemma loaded_startup (env_PORT : option jsstring) (inputs : list Input) :
  Startup (run (loaded env_PORT) inputs).
Proof.
  unfold loaded. generalize (boot_inv (port env_PORT)) (boot_startup (port env_PORT)).
  generalize (boot (port env_PORT)) as st.
  induction inputs as [|i rest IH]; intros st HI HS; [exact HS|].
  cbn. apply IH; [apply step_inv, HI|apply step_startup; assumption].
Qed.

Lemma unhandled_not_sigint (e : JSError) :
  suspension (onUnhandledRejection e) <> suspension onSigint.
Proof.
  cbn. intro H. injection H as H.
  apply (f_equal (fun k => k Resolved)) in H. cbn in H. discriminate.
Qed.

Lemma boot_origins (p : PortValue) : Origins (boot p).
Proof.
  constructor; cbn.
  - intros s [<-|[]] E. discriminate.
  - tauto.
  - exact I.
Qed.

(** Closes the three fields of [Origins] of an evaluated state. *)
Ltac origins_solve O1 O2 :=
  constructor;
  cbn [portOf log handlers awaiting closing listenCalled status record perform
       suspend closeRequested exited setStatus setAwaiting setClosing];
  unfold interrupted in *;
  [ let s := fresh "s" in
    let Hin := fresh "Hin" in
    let Es := fresh "Es" in
    intros s Hin Es;
    try (apply in_app_or in Hin; destruct Hin as [Hin|[<-|[]]]);
    try apply removeNth_In in Hin;
    try (specialize (O1 _ Hin Es));
    try (exfalso; apply (unhandled_not_sigint (mkError None None)); exact Es);
    cbn; tauto
  | let Hin := fresh "Hin" in
    intro Hin;
    try (apply in_app_or in Hin; destruct Hin as [Hin|[Hin|[]]]);
    try discriminate;
    try (specialize (O2 Hin));
    cbn in *; tauto
  | cbn;
    first [ exact I
          | split; [auto|];
            let H := fresh "H" in
            intro H; try discriminate; cbn; tauto ] ].

Lemma step_origins (st : Process) (i : Input) :
  Inv st -> Origins st -> Origins (step st i).
Proof.
  intros HI HO. unfold step. destruct (status st) eqn:Hs; try exact HO.
  pose proof HO as [O1 O2 _].
  pose proof (inv_uncaught st HI) as H5.
  destruct i as [n r| | |e|e| |e].
  - destruct (nth_error (awaiting st) n) as [[op k]|] eqn:En;
      [|constructor; try assumption; now rewrite Hs].
    assert (Hk : suspOK (portOf st) (op, k)).
    { pose proof (inv_awaiting st HI) as F. rewrite Forall_forall in F.
      eapply F, nth_error_In, En. }
    pose proof (fun E => O1 _ (nth_error_In _ _ En) E) as Osig.
    clear HI. destruct st as [p l h a c lc s]. cbn in *. subst s.
    destruct Hk as [E|[E|[e E]]]; cbn in E;
      [|specialize (Osig E)|]; injection E as -> ->;
      destruct r as [|e']; unfold runAsync; cbn;
      origins_solve O1 O2.
  - (* Closed *)
    destruct (closing st) as [|cb rest] eqn:Ec; [exact HO|].
    assert (Hcb : callbackOK cb).
    { pose proof (inv_closing st HI) as F. rewrite Ec in F. now inversion F. }
    clear HI HO. destruct st as [p l h a c lc s]. cbn in *. subst s c.
    destruct Hcb as [-> | ->]; cbn; destruct rest; cbn;
      try (specialize (O2 (or_introl eq_refl)));
      origins_solve O1 O2.
  - (* Sigint *)
    clear HI. destruct st as [p l h a c lc s]. unfold registered in *.
    cbn in *. subst s.
    destruct (existsb (Handler_eqb HSigint) h); unfold runAsync; cbn;
      origins_solve O1 O2.
  - (* UnhandledRejection *)
    clear HI. destruct st as [p l h a c lc s].
    unfold rejected, uncaught, registered in *. cbn in *. subst s.
    destruct (existsb (Handler_eqb HUnhandledRejection) h); cbn;
      [|rewrite H5; cbn]; origins_solve O1 O2.
  - (* ServerError *)
    clear HI. destruct st as [p l h a c lc s]. unfold registered in *.
    cbn in *. subst s.
    destruct lc; [|exact HO]. clear HO.
    unfold runSync, onError, uncaught, registered.
    destruct (existsb (Handler_eqb HServerError) h); cbn;
      [destruct (strictEq (syscall e) "listen"); cbn;
       [destruct (strictEq (code e) "EACCES"); cbn;
        [|destruct (strictEq (code e) "EADDRINUSE"); cbn]|]|];
      rewrite ?H5; cbn; origins_solve O1 O2.
  - (* Listening *)
    clear HI. destruct st as [p l h a c lc s]. unfold registered in *.
    cbn in *. subst s.
    destruct (lc && existsb (Handler_eqb HServerListening) h); cbn;
      origins_solve O1 O2.
  - (* UncaughtException *)
    clear HI. destruct st as [p l h a c lc s].
    unfold uncaught, registered in *. cbn in *. subst s.
    rewrite H5. cbn. origins_solve O1 O2.
Qed.

Lemma loaded_origins (env_PORT : option jsstring) (inputs : list Input) :
  Origins (run (loaded env_PORT) inputs).
Proof.
  unfold loaded. generalize (boot_inv (port env_PORT)) (boot_origins (port env_PORT)).
  generalize (boot (port env_PORT)) as st.
  induction inputs as [|i rest IH]; intros st HI HO; [exact HO|].
  cbn. apply IH; [apply step_inv, HI|apply step_origins; assumption].
Qed.

(** X6.  In every run [db.$connect()] is called exactly once, and
    [server.listen(port)] is called exactly when the promise of that call
    has settled, whichever way: not before, and not a second time.  No
    listener is attached twice. *)
Theorem startup_once (env_PORT : option jsstring) (inputs : list Input) :
  let st := run (loaded env_PORT) inputs in
  count isConnectCall (trace st) = 1 /\
  count isListen (trace st) = count isConnectSettled (trace st) /\
  count isConnectSettled (trace st) <= 1 /\
  (listenCalled st = true <-> count isConnectSettled (trace st) = 1) /\
  NoDup (handlers st).
Proof.
  intro st. pose proof (loaded_startup env_PORT inputs) as [S1 S2].
  fold st in S1, S2. clearbody st. unfold trace. rewrite !count_rev.
  split; [exact S1|].
  destruct S2 as [[P1 [P2 [P3 [P4 P5]]]]|[P1 [P2 [P3 [P4 P5]]]]];
    rewrite P1, P3, P4, P5; repeat split; try lia; try discriminate;
    repeat constructor; cbn; intuition discriminate.
Qed.

(** X7.  While the connect is pending the shutdown listeners are not
    attached yet: an interrupt then ends the process by the default action
    of the signal, and an unhandled rejection ends it with code 1 through
    the 'uncaughtException' listener; neither calls [db.$disconnect()]. *)
Theorem triggers_before_listen (env_PORT : option jsstring) (inputs : list Input) :
  let st := run (loaded env_PORT) inputs in
  status st = Running ->
  listenCalled st = false ->
  (status (step st Sigint) = Killed /\
   count isDisconnectCall (trace (step st Sigint))
   = count isDisconnectCall (trace st)) /\
  (forall e,
     status (step st (UnhandledRejection e)) = Exited 1 /\
     count isDisconnectCall (trace (step st (UnhandledRejection e)))
     = count isDisconnectCall (trace st)).
Proof.
  intro st. pose proof (loaded_startup env_PORT inputs) as [_ S2].
  fold st in S2. clearbody st. intros Hs Hl.
  destruct S2 as [[_ [_ [_ [P4 _]]]]|[_ [_ [P3 _]]]]; [|congruence].
  split; [split|intro e; split]; unfold trace; rewrite ?count_rev;
    destruct st as [p l h a c lc s]; cbn in *; subst; reflexivity.
Qed.

(** X8.  Whenever the process has exited, the code is 0 or 1, and it is 0
    only if an interrupt was delivered and the listener has emitted
    'close'. *)
Theorem exit_code_origin (env_PORT : option jsstring) (inputs : list Input) (c : Z) :
  let st := run (loaded env_PORT) inputs in
  status st = Exited c ->
  (c = 0%Z \/ c = 1%Z) /\
  (c = 0%Z -> In (EvIn Sigint) (trace st) /\ In (EvIn Closed) (trace st)).
Proof.
  intros st Hs. pose proof (or_status _ (loaded_origins env_PORT inputs)) as H.
  fold st in H. rewrite Hs in H. destruct H as [H1 H2].
  split; [exact H1|]. intro Hc. destruct (H2 Hc) as [Hi Hcl].
  unfold trace. split; apply In_rev_iff; assumption.
Qed.

(** X9.  The 'uncaughtException' listener is attached before anything
    can throw: in no run does the process die of an exception without a
    listener.  It runs, was ended by an interrupt without a listener, or
    has exited with code 0 or 1. *)
Theorem never_crashes (env_PORT : option jsstring) (inputs : list Input) :
  let st := run (loaded env_PORT) inputs in
  status st = Running \/ status st = Killed \/
  status st = Exited 0 \/ status st = Exited 1.
Proof.
  intro st. pose proof (or_status _ (loaded_origins env_PORT inputs)) as H.
  fold st in H. destruct (status st) as [|c| |]; auto.
  - destruct H as [[-> | ->] _]; auto.
  - elim H.
Qed.

Lemma step_quiet (st : Process) (i : Input) :
  Inv st -> Startup st ->
  status st = Running -> listenCalled st = true -> quiet i = true ->
  status (step st i) = Running /\ listenCalled (step st i) = true.
Proof.
  intros HI [_ S2] Hs Hl Hq. unfold step. rewrite Hs.
  destruct S2 as [[_ [_ [P3 _]]]|[_ [_ [_ [P4 _]]]]]; [congruence|].
  destruct i as [n r| | |e|e| |e]; try discriminate.
  - destruct (nth_error (awaiting st) n) as [[op k]|] eqn:En; [|auto].
    assert (Hk : suspOK (portOf st) (op, k)).
    { pose proof (inv_awaiting st HI) as F. rewrite Forall_forall in F.
      eapply F, nth_error_In, En. }
    clear HI. destruct st as [p l h a c lc s]. cbn in *. subst.
    destruct Hk as [E|[E|[e E]]]; cbn in E; injection E as -> ->;
      destruct r; split; reflexivity.
  - clear HI. destruct st as [p l h a c lc s]. cbn in *. subst.
    split; reflexivity.
  - clear HI. destruct st as [p l h a c lc s]. cbn in *. subst.
    split; reflexivity.
  - clear HI. destruct st as [p l h a c lc s]. cbn in *. subst.
    split; reflexivity.
Qed.

(** X10.  Once [server.listen] has been called, no sequence of
    interrupts, unhandled rejections, settled promises and 'listening'
    reports ends the process: a shutdown under way exits only when the
    listener emits 'close' (or a listener error or an uncaught exception
    cuts it short); the script sets no time limit. *)
Theorem shutdown_waits_for_close
  (env_PORT : option jsstring) (before inputs : list Input) :
  let st := run (loaded env_PORT) before in
  status st = Running ->
  listenCalled st = true ->
  forallb quiet inputs = true ->
  status (run st inputs) = Running.
Proof.
  intro st.
  pose proof (loaded_inv env_PORT before) as HI.
  pose proof (loaded_startup env_PORT before) as HS.
  fold st in HI, HS. clearbody st. revert st HI HS.
  induction inputs as [|i rest IH]; intros st HI HS Hs Hl Hq; [exact Hs|].
  cbn in Hq. apply andb_prop in Hq as [Hi Hrest].
  destruct (step_quiet st i HI HS Hs Hl Hi) as [Hs' Hl'].
  cbn. apply IH; auto using step_inv, step_startup.
Qed.

Lemma nth_error_middle {A : Type} (a r : list A) (x : A) :
  nth_error (a ++ x :: r) (List.length a) = Some x.
Proof. induction a as [|y a IH]; cbn; auto. Qed.

Lemma removeNth_middle {A : Type} (a r : list A) (x : A) :
  removeNth (List.length a) (a ++ x :: r) = a ++ r.
Proof. induction a as [|y a IH]; cbn; congruence. Qed.

Lemma nth_error_second {A : Type} (a r : list A) (x y : A) :
  nth_error (a ++ x :: y :: r) (S (List.length a)) = Some y.
Proof. induction a as [|z a IH]; cbn; auto. Qed.

Lemma removeNth_second {A : Type} (a r : list A) (x y : A) :
  removeNth (S (List.length a)) (a ++ x :: y :: r) = a ++ x :: r.
Proof. induction a as [|z a IH]; cbn in *; congruence. Qed.

(** X11.  When an interrupt and an unhandled rejection are both under
    way, the exit code is that of the shutdown whose disconnect settles
    first, not of the trigger that came first: its [server.close] callback
    is the first to run when the listener closes, and it ends the
    process. *)
Theorem race_exit_code (st : Process) (e : JSError) (r1 r2 : Settled) :
  status st = Running ->
  closing st = [] ->
  registered HSigint st = true ->
  registered HUnhandledRejection st = true ->
  let n := List.length (awaiting st) in
  status (run st [Sigint; UnhandledRejection e;
                  Settle n r1; Settle n r2; Closed]) = Exited 0 /\
  status (run st [Sigint; UnhandledRejection e;
                  Settle (S n) r1; Settle n r2; Closed]) = Exited 1.
Proof.
  intros Hs Hc Hr1 Hr2 n. subst n. open_state st.
  unfold run, step, rejected, registered.
  cbn -[nth_error removeNth]. rewrite Hr1.
  cbn -[nth_error removeNth]. rewrite Hr2.
  cbn -[nth_error removeNth].
  rewrite <- !app_assoc. cbn [app]. split.
  - rewrite nth_error_middle, removeNth_middle.
    destruct r1; cbn -[nth_error removeNth];
      rewrite nth_error_snoc, removeNth_snoc;
      destruct r2; reflexivity.
  - rewrite nth_error_second, removeNth_second.
    destruct r1; cbn -[nth_error removeNth];
      rewrite nth_error_snoc, removeNth_snoc;
      destruct r2; reflexivity.
Qed.

(** X12.  A listen error with code EACCES or EADDRINUSE logs one line,
    naming the pipe when the port is a string and the port otherwise, and
    exits with code 1 in the same turn: tasks waiting for a disconnect and
    callbacks waiting for 'close' are left as they are. *)
Theorem listen_error_exit (st : Process) (e : JSError) :
  status st = Running ->
  listenCalled st = true ->
  registered HServerError st = true ->
  syscall e = Some "listen"%string ->
  code e = Some "EACCES"%string \/ code e = Some "EADDRINUSE"%string ->
  let st' := step st (ServerError e) in
  let bind := match portOf st with
              | PString s => Pipe s
              | p => Port p
              end in
  trace st' =
    trace st ++
    [EvIn (ServerError e);
     EvDo (Log Error_
             (if strictEq (code e) "EACCES"
              then MsgRequiresPrivileges bind
              else MsgAlreadyInUse bind));
     EvExit 1] /\
  awaiting st' = awaiting st /\
  closing st' = closing st.
Proof.
  intros Hs Hl Hr Hsys Hcode. open_state st.
  unfold step, registered. cbn. rewrite Hr.
  unfold runSync, onError, bindOf. rewrite Hsys. cbn.
  destruct Hcode as [-> | ->]; cbn; repeat split; in_time;
    match goal with
    | |- context [match ?p with PString _ => _ | _ => _ end] => destruct p
    end; reflexivity.
Qed.

Lemma triggers_before_listen_witness :
  let st := run (loaded None) [] in
  status st = Running /\
  listenCalled st = false /\
  status (step st Sigint) = Killed /\
  status (step st (UnhandledRejection (mkError None None))) = Exited 1.
Proof.
  intro st.
  assert (Hs : status st = Running) by (vm_compute; reflexivity).
  assert (Hl : listenCalled st = false) by (vm_compute; reflexivity).
  split; [exact Hs|]. split; [exact Hl|].
  pose proof (triggers_before_listen None [] Hs Hl) as [[H1 _] H2].
  split; [exact H1|]. exact (proj1 (H2 (mkError None None))).
Defined.

Lemma exit_code_origin_witness :
  let st := run (loaded None)
                [Settle 0 Resolved; Sigint; Settle 0 Resolved; Closed] in
  status st = Exited 0 /\
  In (EvIn Sigint) (trace st) /\
  In (EvIn Closed) (trace st).
Proof.
  intro st.
  assert (Hs : status st = Exited 0) by (vm_compute; reflexivity).
  split; [exact Hs|].
  exact (proj2 (exit_code_origin None
                  [Settle 0 Resolved; Sigint; Settle 0 Resolved; Closed]
                  0%Z Hs) eq_refl).
Defined.

Lemma shutdown_waits_for_close_witness :
  let st := run (loaded None) [Settle 0 Resolved] in
  let e := mkError None None in
  let inputs := [Sigint; Settle 0 (Rejected e); UnhandledRejection e;
                 Sigint; Listening] in
  status st = Running /\
  listenCalled st = true /\
  forallb quiet inputs = true /\
  status (run st inputs) = Running.
Proof.
  intros st e inputs.
  assert (Hs : status st = Running) by (vm_compute; reflexivity).
  assert (Hl : listenCalled st = true) by (vm_compute; reflexivity).
  assert (Hq : forallb quiet inputs = true) by reflexivity.
  split; [exact Hs|]. split; [exact Hl|]. split; [exact Hq|].
  exact (shutdown_waits_for_close None [Settle 0 Resolved] inputs Hs Hl Hq).
Defined.

Lemma race_exit_code_witness :
  let st := run (loaded None) [Settle 0 Resolved] in
  let e := mkError None None in
  status st = Running /\
  closing st = [] /\
  status (run st [Sigint; UnhandledRejection e;
                  Settle 0 Resolved; Settle 0 Resolved; Closed]) = Exited 0 /\
  status (run st [Sigint; UnhandledRejection e;
                  Settle 1 Resolved; Settle 0 Resolved; Closed]) = Exited 1.
Proof.
  intros st e.
  assert (Hs : status st = Running) by (vm_compute; reflexivity).
  assert (Hc : closing st = []) by (vm_compute; reflexivity).
  assert (H1 : registered HSigint st = true) by (vm_compute; reflexivity).
  assert (H2 : registered HUnhandledRejection st = true)
    by (vm_compute; reflexivity).
  split; [exact Hs|]. split; [exact Hc|].
  exact (race_exit_code st e Resolved Resolved Hs Hc H1 H2).
Defined.

Lemma listen_error_exit_witness :
  let st := run (loaded (Some (of_string "/tmp/app.sock")))
                [Settle 0 Resolved; Sigint] in
  let e := mkError (Some "listen"%string) (Some "EADDRINUSE"%string) in
  status st = Running /\
  trace (step st (ServerError e)) =
    trace st ++
    [EvIn (ServerError e);
     EvDo (Log Error_ (MsgAlreadyInUse (Pipe (of_string "/tmp/app.sock"))));
     EvExit 1] /\
  awaiting (step st (ServerError e)) = awaiting st.
Proof.
  intros st e.
  assert (Hs : status st = Running) by (vm_compute; reflexivity).
  assert (Hl : listenCalled st = true) by (vm_compute; reflexivity).
  assert (Hr : registered HServerError st = true) by (vm_compute; reflexivity).
  split; [exact Hs|].
  pose proof (listen_error_exit st e Hs Hl Hr eq_refl (or_intror eq_refl))
    as [H1 [H2 _]].
  split; [exact H1|exact H2].
Defined.




Lemma normalizePort_pipe_iff_witness :
  startsWithDigit (dropSign (trimStart (of_string " +"))) = false /\
  normalizePort (of_string " +") = PString (of_string " +") /\
  normalizePort [] = PString [].
Proof.
  split; [reflexivity|]. split.
  - apply (proj2 (normalizePort_pipe_iff (of_string " +"))). reflexivity.
  - apply (proj2 (normalizePort_pipe_iff [])). reflexivity.
Defined.

Lemma startup_once_witness :
  let st := run (loaded None) [Sigint] in
  let st' := run (loaded None) [Settle 0 Resolved; Settle 0 Resolved] in
  listenCalled st = false /\
  count isListen (trace st) = 0 /\
  listenCalled st' = true /\
  count isConnectSettled (trace st') = 1.
Proof.
  intros st st'.
  assert (Hl : listenCalled st' = true) by (vm_compute; reflexivity).
  split; [vm_compute; reflexivity|]. split; [vm_compute; reflexivity|].
  split; [exact Hl|].
  exact (proj1 (proj1 (proj2 (proj2 (proj2
           (startup_once None [Settle 0 Resolved; Settle 0 Resolved])))))
           Hl).
Defined.
